(** * BuildXL sandbox: canonical events and the access handler

    A shallow embedding of
    - [Public/Src/Sandbox/Linux/SandboxEvent.h] (namespace [buildxl::linux]),
    - [Public/Src/Sandbox/MacOs/Interop/Sandbox/Handlers/AccessHandler.hpp],
    followed by the properties the design document states about them. *)

From Stdlib Require Import ZArith String Ascii Bool List Lia.
From stdpp Require Import base option gmap strings.

Local Open Scope Z_scope.

(** ** Assertions

    [assert(c)] aborts the process when [c] is false.  A member function
    that asserts is a computation that either returns or aborts, and the
    abort remembers which contract was broken. *)

Inductive contract : Type :=
  | requires_valid        (* assert(is_valid_)   *)
  | requires_not_sealed.  (* assert(!is_sealed_) *)

Inductive checked (A : Type) : Type :=
  | Returns (a : A)
  | Aborts (c : contract).

Arguments Returns {A} a.
Arguments Aborts {A} c.

Definition bind_checked {A B : Type} (m : checked A) (k : A -> checked B) : checked B :=
  match m with
  | Returns a => k a
  | Aborts c => Aborts c
  end.

Definition assert (cond : bool) (c : contract) : checked unit :=
  if cond then Returns tt else Aborts c.

Declare Scope checked_scope.
Delimit Scope checked_scope with checked.
Notation "m ;;; k" := (bind_checked m (fun _ => k))
  (at level 100, right associativity) : checked_scope.

Definition aborted {A : Type} (m : checked A) : Prop :=
  exists c, m = Aborts c.

(** ** C strings

    A [const char *] argument is either [nullptr] or points at bytes that
    end in a NUL.  The pointer is modelled by the bytes it points at, the
    final NUL left out, and the C string is what precedes the first NUL
    among them: all of them for a buffer that holds no other NUL. *)

Definition NUL : ascii := Ascii.zero.

Definition const_char_ptr : Type := option string.
Definition nullptr : const_char_ptr := None.

(** [p[0]] *)
Definition at0 (buf : string) : ascii :=
  match buf with
  | EmptyString => NUL
  | String c _ => c
  end.

(** The [std::string] converting constructor from a C string: the bytes
    up to the first NUL. *)
Fixpoint std_string (buf : string) : string :=
  match buf with
  | EmptyString => EmptyString
  | String c rest => if Ascii.eqb c NUL then EmptyString else String c (std_string rest)
  end.

(** The path begins with the separator ['/']. *)
Definition rooted (p : string) : bool :=
  match p with
  | String c _ => Ascii.eqb c "/"
  | EmptyString => false
  end.

(** *** How the absolute-path factory classifies the strings it is given

    These follow the words of the design document, on the string a pointer
    denotes: a source is relative when it is empty or does not begin with
    the separator; a destination is relative when it is not empty and does
    not begin with the separator. *)

Definition is_empty (p : string) : bool :=
  match p with
  | EmptyString => true
  | String _ _ => false
  end.

Definition relative_source (p : string) : bool := is_empty p || negb (rooted p).
Definition relative_destination (p : string) : bool := negb (is_empty p) && negb (rooted p).

Module linux.

(** *** Enumerations *)

Inductive SandboxEventPathType : Type :=
  | kAbsolutePaths
  | kRelativePaths
  | kFileDescriptors.

Inductive RequiredPathResolution : Type :=
  | kFullyResolve
  | kResolveNoFollow
  | kDoNotResolve.

(** [S_ISDIR] of <sys/stat.h>: [(m & S_IFMT) == S_IFDIR]. *)
Definition S_IFMT : Z := 61440.   (* 0170000 *)
Definition S_IFDIR : Z := 16384.  (* 0040000 *)
Definition S_ISDIR (m : Z) : bool := Z.land m S_IFMT =? S_IFDIR.

Section SandboxEvent.

(** Declared by headers outside this file: the event-type enumeration with
    its fork enumerator, and [AT_FDCWD] of <fcntl.h>. *)
Context {es_event_type_t : Type}.
Variable ES_EVENT_TYPE_NOTIFY_FORK : es_event_type_t.
Variable AT_FDCWD : Z.

(** [int], [pid_t], [mode_t] and [uint] fields are integers; the class only
    stores and returns them. *)
Record SandboxEvent : Type := mkSandboxEvent {
  event_type_ : es_event_type_t;
  path_type_ : SandboxEventPathType;
  src_path_ : string;
  dst_path_ : string;
  src_fd_ : Z;
  dst_fd_ : Z;
  pid_ : Z;
  child_pid_ : Z;
  required_path_resolution_ : RequiredPathResolution;
  mode_ : Z;
  error_ : Z;
  is_valid_ : bool;
  is_sealed_ : bool
}.

(** The private default constructor initialises the two flags only.  The
    two [std::string] members are default-constructed empty; the scalar
    members keep whatever the storage held, which is [storage] here. *)
Variable storage : SandboxEvent.

Definition SandboxEvent_default : SandboxEvent :=
  {| event_type_ := event_type_ storage;
     path_type_ := path_type_ storage;
     src_path_ := EmptyString;
     dst_path_ := EmptyString;
     src_fd_ := src_fd_ storage;
     dst_fd_ := dst_fd_ storage;
     pid_ := pid_ storage;
     child_pid_ := child_pid_ storage;
     required_path_resolution_ := required_path_resolution_ storage;
     mode_ := mode_ storage;
     error_ := error_ storage;
     is_valid_ := false;
     is_sealed_ := false |}.

Definition Invalid : SandboxEvent := SandboxEvent_default.

(** The private nine-argument constructor. *)
Definition SandboxEvent_ctor
    (event_type : es_event_type_t) (src_path dst_path : string)
    (src_fd dst_fd pid child_pid error : Z)
    (path_type : SandboxEventPathType) : SandboxEvent :=
  {| event_type_ := event_type;
     src_path_ := src_path;
     dst_path_ := dst_path;
     src_fd_ := src_fd;
     dst_fd_ := dst_fd;
     pid_ := pid;
     child_pid_ := child_pid;
     mode_ := 0;
     error_ := error;
     path_type_ := path_type;
     required_path_resolution_ := kFullyResolve;
     is_valid_ := true;
     is_sealed_ := false |}.

(** *** Factories *)

Definition ForkSandboxEvent (pid child_pid : Z) (path : string) : SandboxEvent :=
  SandboxEvent_ctor ES_EVENT_TYPE_NOTIFY_FORK path EmptyString (-1) (-1)
    pid child_pid 0 kAbsolutePaths.

Definition RelativePathSandboxEvent
    (event_type : es_event_type_t) (pid error : Z)
    (src_path : const_char_ptr) (src_fd : Z)
    (dst_path : const_char_ptr) (dst_fd : Z) : SandboxEvent :=
  match src_path, dst_path with
  | Some src, Some dst =>
      SandboxEvent_ctor event_type (std_string src) (std_string dst)
        src_fd dst_fd pid 0 error kRelativePaths
  | _, _ => Invalid
  end.

Definition AbsolutePathSandboxEvent
    (event_type : es_event_type_t) (pid error : Z)
    (src_path dst_path : const_char_ptr) : SandboxEvent :=
  match src_path, dst_path with
  | Some src, Some dst =>
      let is_src_relative :=
        Ascii.eqb (at0 src) NUL || negb (Ascii.eqb (at0 src) "/") in
      let is_dst_relative :=
        negb (Ascii.eqb (at0 dst) NUL) && negb (Ascii.eqb (at0 dst) "/") in
      if is_src_relative || is_dst_relative then
        RelativePathSandboxEvent event_type pid error
          src_path (if is_src_relative then AT_FDCWD else -1)
          dst_path (if is_dst_relative then AT_FDCWD else -1)
      else
        SandboxEvent_ctor event_type (std_string src) (std_string dst)
          (-1) (-1) pid 0 error kAbsolutePaths
  | _, _ => Invalid
  end.

Definition FileDescriptorSandboxEvent
    (event_type : es_event_type_t) (pid error src_fd dst_fd : Z) : SandboxEvent :=
  SandboxEvent_ctor event_type EmptyString EmptyString src_fd dst_fd
    pid 0 error kFileDescriptors.

(** The default arguments [dst_path = ""] and [dst_fd = -1]. *)
Definition default_dst_path : const_char_ptr := Some EmptyString.
Definition default_dst_fd : Z := -1.

(** *** Getters *)

Local Open Scope checked_scope.

(** [IsValid] is declared to return [pid_t]: the flag converted to 0 or 1. *)
Definition IsValid (e : SandboxEvent) : Z := Z.b2z (is_valid_ e).

Definition getter {A : Type} (field : SandboxEvent -> A) (e : SandboxEvent) : checked A :=
  assert (is_valid_ e) requires_valid ;;; Returns (field e).

Definition GetPid := getter pid_.
Definition GetChildPid := getter child_pid_.
Definition GetEventType := getter event_type_.
Definition GetMode := getter mode_.
Definition GetSrcPath := getter src_path_.
Definition GetDstPath := getter dst_path_.
Definition GetSrcFd := getter src_fd_.
Definition GetDstFd := getter dst_fd_.
Definition GetError := getter error_.
Definition GetPathType := getter path_type_.
Definition GetRequiredPathResolution := getter required_path_resolution_.
Definition IsDirectory := getter (fun e => S_ISDIR (mode_ e)).

(** *** Sealing and setters *)

Definition Seal (e : SandboxEvent) : SandboxEvent :=
  {| event_type_ := event_type_ e;
     path_type_ := path_type_ e;
     src_path_ := src_path_ e;
     dst_path_ := dst_path_ e;
     src_fd_ := src_fd_ e;
     dst_fd_ := dst_fd_ e;
     pid_ := pid_ e;
     child_pid_ := child_pid_ e;
     required_path_resolution_ := required_path_resolution_ e;
     mode_ := mode_ e;
     error_ := error_ e;
     is_valid_ := is_valid_ e;
     is_sealed_ := true |}.

Definition SetMode (mode : Z) (e : SandboxEvent) : checked SandboxEvent :=
  assert (is_valid_ e) requires_valid ;;;
  assert (negb (is_sealed_ e)) requires_not_sealed ;;;
  Returns
    {| event_type_ := event_type_ e;
       path_type_ := path_type_ e;
       src_path_ := src_path_ e;
       dst_path_ := dst_path_ e;
       src_fd_ := src_fd_ e;
       dst_fd_ := dst_fd_ e;
       pid_ := pid_ e;
       child_pid_ := child_pid_ e;
       required_path_resolution_ := required_path_resolution_ e;
       mode_ := mode;
       error_ := error_ e;
       is_valid_ := is_valid_ e;
       is_sealed_ := is_sealed_ e |}.

Definition SetRequiredPathResolution (r : RequiredPathResolution) (e : SandboxEvent)
    : checked SandboxEvent :=
  assert (is_valid_ e) requires_valid ;;;
  assert (negb (is_sealed_ e)) requires_not_sealed ;;;
  Returns
    {| event_type_ := event_type_ e;
       path_type_ := path_type_ e;
       src_path_ := src_path_ e;
       dst_path_ := dst_path_ e;
       src_fd_ := src_fd_ e;
       dst_fd_ := dst_fd_ e;
       pid_ := pid_ e;
       child_pid_ := child_pid_ e;
       required_path_resolution_ := r;
       mode_ := mode_ e;
       error_ := error_ e;
       is_valid_ := is_valid_ e;
       is_sealed_ := is_sealed_ e |}.

Definition SetResolvedPaths (src_path dst_path : string) (e : SandboxEvent)
    : checked SandboxEvent :=
  assert (is_valid_ e) requires_valid ;;;
  assert (negb (is_sealed_ e)) requires_not_sealed ;;;
  Returns
    {| event_type_ := event_type_ e;
       path_type_ := kAbsolutePaths;
       src_path_ := src_path;
       dst_path_ := dst_path;
       src_fd_ := -1;
       dst_fd_ := -1;
       pid_ := pid_ e;
       child_pid_ := child_pid_ e;
       required_path_resolution_ := kDoNotResolve;
       mode_ := mode_ e;
       error_ := error_ e;
       is_valid_ := is_valid_ e;
       is_sealed_ := is_sealed_ e |}.

(** What it means for [SetResolvedPaths src dst] to leave an event resolved:
    the call returns, the returned event has absolute paths, the two given
    ones, needs no resolution and holds no descriptor, and the same call on
    it returns it unchanged. *)
Definition resolved_by (src dst : string) (e : SandboxEvent) : Prop :=
  exists e',
    SetResolvedPaths src dst e = Returns e' /\
    path_type_ e' = kAbsolutePaths /\
    required_path_resolution_ e' = kDoNotResolve /\
    src_fd_ e' = -1 /\
    dst_fd_ e' = -1 /\
    src_path_ e' = src /\
    dst_path_ e' = dst /\
    SetResolvedPaths src dst e' = Returns e'.

(** *** Sequences of member calls

    The member functions that change an event, as data, and a sequence of
    them applied in order; the sequence stops at the first call that
    aborts. *)

Inductive member_call : Type :=
  | call_Seal
  | call_SetMode (mode : Z)
  | call_SetRequiredPathResolution (r : RequiredPathResolution)
  | call_SetResolvedPaths (src_path dst_path : string).

Definition invoke (c : member_call) (e : SandboxEvent) : checked SandboxEvent :=
  match c with
  | call_Seal => Returns (Seal e)
  | call_SetMode mode => SetMode mode e
  | call_SetRequiredPathResolution r => SetRequiredPathResolution r e
  | call_SetResolvedPaths src_path dst_path => SetResolvedPaths src_path dst_path e
  end.

Fixpoint invoke_all (cs : list member_call) (e : SandboxEvent) : checked SandboxEvent :=
  match cs with
  | [] => Returns e
  | c :: rest => bind_checked (invoke c e) (invoke_all rest)
  end.

Definition is_Seal (c : member_call) : bool :=
  match c with
  | call_Seal => true
  | _ => false
  end.

(** Re-resolution is impossible for an event when no sequence of member
    calls that returns leaves it asking for a resolution: the required
    resolution stays [kDoNotResolve] whatever is called. *)
Definition resolution_is_final (e : SandboxEvent) : Prop :=
  forall (cs : list member_call) (e' : SandboxEvent),
    invoke_all cs e = Returns e' ->
    required_path_resolution_ e' = kDoNotResolve.

(** The events a client of the class can hold: the constructors are
    private, so an event comes from one of the four factories, and changes
    only through the member functions. *)
Inductive from_factory : SandboxEvent -> Prop :=
  | from_Fork pid child_pid path :
      from_factory (ForkSandboxEvent pid child_pid path)
  | from_AbsolutePath event_type pid error src_path dst_path :
      from_factory (AbsolutePathSandboxEvent event_type pid error src_path dst_path)
  | from_FileDescriptor event_type pid error src_fd dst_fd :
      from_factory (FileDescriptorSandboxEvent event_type pid error src_fd dst_fd)
  | from_RelativePath event_type pid error src_path src_fd dst_path dst_fd :
      from_factory
        (RelativePathSandboxEvent event_type pid error src_path src_fd dst_path dst_fd).

Inductive obtainable : SandboxEvent -> Prop :=
  | obtained_from_factory e :
      from_factory e -> obtainable e
  | obtained_by_call c e e' :
      obtainable e -> invoke c e = Returns e' -> obtainable e'.

End SandboxEvent.

Arguments SandboxEvent : clear implicits.

End linux.

Module AccessHandler.

(** [enum ReportResult] *)
Inductive ReportResult : Type :=
  | kReported
  | kSkipped
  | kFailed.

(** *** The data-partition prefix *)

Definition kDataPartitionPrefix : string := "/System/Volumes/Data/".
Definition kAdjustedPrefixLength : nat := String.length "/System/Volumes/Data".

(** [p + n] on a C string of length at least [n]. *)
Fixpoint advance (n : nat) (p : string) : string :=
  match n, p with
  | O, _ => p
  | S n', String _ rest => advance n' rest
  | S _, EmptyString => EmptyString
  end.

(** Modelled from the spec: the body of [IgnoreDataPartitionPrefix], which
    the header only declares.  The canonicalization step strips the
    overlay-mount prefix from an absolute path.  The header fixes the two
    constants it works with: the prefix it looks for ends in the separator,
    and the length it skips stops before that separator, so that what is
    left is again an absolute path. *)
Definition IgnoreDataPartitionPrefix (path : string) : string :=
  if String.prefix kDataPartitionPrefix path
  then advance kAdjustedPrefixLength path
  else path.

Section Pipeline.

(** Declared by [ESSandbox.h] and [Checkers.hpp], outside this file. *)
Context {FileOperation : Type} `{Countable FileOperation}.
Context {PolicyResult AccessCheckResult es_message_t : Type}.
Variable message_pid : es_message_t -> Z.

(** Modelled from the spec: the type [CheckFunc] of [Checkers.hpp], by the
    checker contract: operation, policy and directory-ness to a decision,
    without side effects. *)
Definition CheckFunc : Type := FileOperation -> PolicyResult -> bool -> AccessCheckResult.

(** The collaborators whose bodies live elsewhere: the policy index behind
    [PolicyForPath] and the report sink behind [ReportFileOpAccess]. *)
Variable PolicyForPath : string -> PolicyResult.
Variable ReportFileOpAccess :
  FileOperation -> PolicyResult -> AccessCheckResult -> Z -> ReportResult.

(** Modelled from the spec: what a call does that the orchestrator or a
    test can observe, a policy lookup or an invocation of the reporting
    operation with its result. *)
Inductive Effect : Type :=
  | PolicyLookup (absolutePath : string)
  | Report (operation : FileOperation) (policy : PolicyResult)
      (decision : AccessCheckResult) (processID : Z) (outcome : ReportResult).

(** Modelled from the spec: an access decision cache entry, the decision
    computed for a key and the result of reporting it. *)
Record CacheEntry : Type := mkCacheEntry {
  cached_decision : AccessCheckResult;
  cached_outcome : ReportResult
}.

(** Modelled from the spec: the state a pip shares between the handlers
    bound to it, which is its access decision cache keyed by operation and
    canonical path; the effects performed so far are kept beside it. *)
Record Pip : Type := mkPip {
  cache : gmap (FileOperation * string) CacheEntry;
  effects : list Effect
}.

Definition new_pip : Pip := {| cache := ∅; effects := [] |}.

Definition cache_key (operation : FileOperation) (path : string) : FileOperation * string :=
  (operation, IgnoreDataPartitionPrefix path).

(** Modelled from the spec: the body of [CheckAndReportInternal], which the
    header only declares.  Canonicalize the path; look the key up; on a hit
    return the cached decision; on a miss resolve the policy, apply the
    checker, invoke the reporting operation, insert the outcome whatever it
    is, and return the decision. *)
Definition CheckAndReportInternal
    (operation : FileOperation) (path : string) (checker : CheckFunc)
    (msg : es_message_t) (isDir : bool) (pip : Pip) : AccessCheckResult * Pip :=
  let canonical := IgnoreDataPartitionPrefix path in
  let key := (operation, canonical) in
  match cache pip !! key with
  | Some entry => (cached_decision entry, pip)
  | None =>
      let policy := PolicyForPath canonical in
      let decision := checker operation policy isDir in
      let outcome :=
        ReportFileOpAccess operation policy decision (message_pid msg) in
      (decision,
       {| cache := <[key := mkCacheEntry decision outcome]> (cache pip);
          effects := effects pip ++
            [PolicyLookup canonical;
             Report operation policy decision (message_pid msg) outcome] |})
  end.

(** The two inline overloads of [CheckAndReport]. *)
Definition CheckAndReport
    (operation : FileOperation) (path : string) (checker : CheckFunc)
    (msg : es_message_t) (pip : Pip) : AccessCheckResult * Pip :=
  CheckAndReportInternal operation path checker msg false pip.

Definition CheckAndReport_isDir
    (operation : FileOperation) (path : string) (checker : CheckFunc)
    (msg : es_message_t) (isDir : bool) (pip : Pip) : AccessCheckResult * Pip :=
  CheckAndReportInternal operation path checker msg isDir pip.

(** One call as data, and a sequence of calls run in order on a pip. *)
Record Call : Type := mkCall {
  call_operation : FileOperation;
  call_path : string;
  call_checker : CheckFunc;
  call_msg : es_message_t;
  call_isDir : bool
}.

Definition call_key (c : Call) : FileOperation * string :=
  cache_key (call_operation c) (call_path c).

Definition perform (c : Call) (pip : Pip) : AccessCheckResult * Pip :=
  CheckAndReport_isDir (call_operation c) (call_path c) (call_checker c)
    (call_msg c) (call_isDir c) pip.

Fixpoint perform_all (cs : list Call) (pip : Pip) : list AccessCheckResult * Pip :=
  match cs with
  | [] => ([], pip)
  | c :: rest =>
      let '(d, pip1) := perform c pip in
      let '(ds, pip2) := perform_all rest pip1 in
      (d :: ds, pip2)
  end.

End Pipeline.

Arguments CheckFunc : clear implicits.
Arguments Effect : clear implicits.
Arguments CacheEntry : clear implicits.
Arguments Pip FileOperation {_ _} PolicyResult AccessCheckResult.
Arguments Call : clear implicits.

(** *** The handler and the process it is bound to *)

Section Handler.

(** Declared outside this file: the sandbox, the tracked process and its
    pip.  [SandboxedProcess::GetPip] returns a shared pointer, which may be
    null; the four pip accessors return what the pip holds. *)
Context {ESSandbox SandboxedProcess SandboxedPip pipid_t FileAccessManifestFlag : Type}.
Variable SandboxedProcess_GetPip : SandboxedProcess -> option SandboxedPip.
Variable SandboxedPip_GetProcessId : SandboxedPip -> Z.
Variable SandboxedPip_GetPipId : SandboxedPip -> pipid_t.
Variable SandboxedPip_GetTreeSize : SandboxedPip -> Z.
Variable SandboxedPip_GetFamFlags : SandboxedPip -> FileAccessManifestFlag.

(** The two pointer members; [None] is the null pointer. *)
Record AccessHandler_t : Type := mkAccessHandler {
  sandbox_ : option ESSandbox;
  process_ : option SandboxedProcess
}.

(** The constructor and the destructor. *)
Definition AccessHandler_ctor (sandbox : option ESSandbox) : AccessHandler_t :=
  {| sandbox_ := sandbox; process_ := None |}.

Definition AccessHandler_dtor (h : AccessHandler_t) : AccessHandler_t :=
  {| sandbox_ := None; process_ := None |}.

Definition SetProcess (process : option SandboxedProcess) (h : AccessHandler_t)
    : AccessHandler_t :=
  {| sandbox_ := sandbox_ h; process_ := process |}.

Definition GetSandbox (h : AccessHandler_t) : option ESSandbox := sandbox_ h.
Definition GetProcess (h : AccessHandler_t) : option SandboxedProcess := process_ h.

Definition HasTrackedProcess (h : AccessHandler_t) : bool :=
  match process_ h with
  | Some _ => true
  | None => false
  end.

(** [process_->GetPip()] dereferences [process_], and each accessor
    dereferences the pip: a result is [None] when the call goes through a
    null pointer, where the behaviour is undefined.  [GetPip] itself returns
    a pointer, null or not, once [process_] is not null. *)
Definition GetPip (h : AccessHandler_t) : option (option SandboxedPip) :=
  match process_ h with
  | Some process => Some (SandboxedProcess_GetPip process)
  | None => None
  end.

Definition through_pip {A : Type} (read : SandboxedPip -> A) (h : AccessHandler_t)
    : option A :=
  match GetPip h with
  | Some (Some pip) => Some (read pip)
  | _ => None
  end.

Definition GetProcessId := through_pip SandboxedPip_GetProcessId.
Definition GetPipId := through_pip SandboxedPip_GetPipId.
Definition GetProcessTreeSize := through_pip SandboxedPip_GetTreeSize.
Definition GetFamFlags := through_pip SandboxedPip_GetFamFlags.

End Handler.

Arguments AccessHandler_t : clear implicits.


End AccessHandler.

Import linux.
Import AccessHandler.

(** ** Concrete events

    Event types as their integer values, the Linux value of [AT_FDCWD], and
    storage whose scalar members hold leftovers. *)

Definition fcntl_AT_FDCWD : Z := -100.

Definition leftover_storage : SandboxEvent Z :=
  mkSandboxEvent 3 kFileDescriptors "stale" "stale" 7 8 4242 4243
    kResolveNoFollow 493 2 true true.

Definition relative_event : SandboxEvent Z :=
  RelativePathSandboxEvent leftover_storage 10 4242 0
    (Some "a") 5 default_dst_path default_dst_fd.

Definition sealed_relative_event : SandboxEvent Z := Seal relative_event.

(** [relative_event] after [SetResolvedPaths "/tmp/a" ""]. *)
Definition resolved_relative_event : SandboxEvent Z :=
  mkSandboxEvent 10 kAbsolutePaths "/tmp/a" "" (-1) (-1) 4242 0
    kDoNotResolve 0 0 true false.

Definition fork_event : SandboxEvent Z := ForkSandboxEvent 11 4242 4243 "/bin/sh".

(** [relative_event] after its mode is set, its paths are resolved and it is
    sealed. *)
Definition reported_event : SandboxEvent Z :=
  mkSandboxEvent 10 kAbsolutePaths "/tmp/a" "" (-1) (-1) 4242 0
    kDoNotResolve 16877 0 true true.

(** A tracked process by its pid, whose pip is its own pid and a tree size;
    pid 0 has no pip. *)
Definition pip_of_process (process : Z) : option (Z * Z) :=
  if process =? 0 then None else Some (process, 3).

(** A policy that allows what lies under [/tmp/], a checker that follows the
    policy, and a sink that skips allowed accesses and delivers denied ones;
    operations by number, a message by the pid it carries. *)

Definition tmp_policy (absolutePath : string) : bool :=
  String.prefix "/tmp/" absolutePath.

Definition policy_checker : CheckFunc nat bool bool :=
  fun _ policy _ => policy.

Definition skip_allowed (operation : nat) (policy decision : bool) (pid : Z)
    : ReportResult :=
  if decision then kSkipped else kReported.

Definition open_tmp_a : Call nat bool bool Z :=
  mkCall 1%nat "/tmp/a" policy_checker 4242 false.

Definition open_tmp_a_on_data_partition : Call nat bool bool Z :=
  mkCall 1%nat "/System/Volumes/Data/tmp/a" policy_checker 4243 true.

(** * Properties *)

Lemma at0_is_NUL (buf : string) :
  Ascii.eqb (at0 buf) NUL = is_empty (std_string buf).
Proof.
  destruct buf as [|c rest]; simpl; [reflexivity|].
  destruct (Ascii.eqb c NUL); reflexivity.
Qed.

Lemma at0_is_slash (buf : string) :
  Ascii.eqb (at0 buf) "/" = rooted (std_string buf).
Proof.
  destruct buf as [|c rest]; simpl; [reflexivity|].
  destruct (Ascii.eqb c NUL) eqn:E; simpl; [|reflexivity].
  apply Ascii.eqb_eq in E. subst c. reflexivity.
Qed.

Section SandboxEventProperties.

Context {es_event_type_t : Type}.
Variable AT_FDCWD : Z.
Variable storage : SandboxEvent es_event_type_t.

Local Abbreviation Invalid := (Invalid storage).
Local Abbreviation RelativePathSandboxEvent := (RelativePathSandboxEvent storage).
Local Abbreviation AbsolutePathSandboxEvent := (AbsolutePathSandboxEvent AT_FDCWD storage).

(** The two branches of the absolute-path factory, by the classification of
    the denoted strings. *)
Lemma AbsolutePathSandboxEvent_unfold ty pid err (src dst : string) :
  AbsolutePathSandboxEvent ty pid err (Some src) (Some dst) =
    if relative_source (std_string src) || relative_destination (std_string dst)
    then RelativePathSandboxEvent ty pid err
           (Some src) (if relative_source (std_string src) then AT_FDCWD else -1)
           (Some dst) (if relative_destination (std_string dst) then AT_FDCWD else -1)
    else SandboxEvent_ctor ty (std_string src) (std_string dst) (-1) (-1) pid 0 err
           kAbsolutePaths.
Proof.
  unfold linux.AbsolutePathSandboxEvent, relative_source, relative_destination.
  rewrite !at0_is_NUL, !at0_is_slash. reflexivity.
Qed.

Lemma RelativePathSandboxEvent_populated ty pid err (src dst : string) fd_src fd_dst :
  RelativePathSandboxEvent ty pid err (Some src) fd_src (Some dst) fd_dst =
    SandboxEvent_ctor ty (std_string src) (std_string dst) fd_src fd_dst pid 0 err
      kRelativePaths.
Proof. reflexivity. Qed.

Lemma Seal_is_sealed (e : SandboxEvent es_event_type_t) :
  is_sealed_ (Seal e) = true /\ is_valid_ (Seal e) = is_valid_ e.
Proof. split; reflexivity. Qed.

Lemma getter_valid {A : Type} (field : SandboxEvent es_event_type_t -> A) e :
  is_valid_ e = true -> getter field e = Returns (field e).
Proof. intros Hv. unfold getter. rewrite Hv. reflexivity. Qed.

Lemma getter_invalid {A : Type} (field : SandboxEvent es_event_type_t -> A) e :
  is_valid_ e = false -> getter field e = Aborts requires_valid.
Proof. intros Hv. unfold getter. rewrite Hv. reflexivity. Qed.

(** A setter guarded by both assertions: what it does by the two flags. *)
Lemma SetMode_guard mode (e : SandboxEvent es_event_type_t) :
  SetMode mode e =
    if is_valid_ e then
      if is_sealed_ e then Aborts requires_not_sealed
      else Returns (mkSandboxEvent (event_type_ e) (path_type_ e) (src_path_ e)
             (dst_path_ e) (src_fd_ e) (dst_fd_ e) (pid_ e) (child_pid_ e)
             (required_path_resolution_ e) mode (error_ e) true false)
    else Aborts requires_valid.
Proof.
  unfold SetMode. destruct e as [? ? ? ? ? ? ? ? ? ? ? [] []]; reflexivity.
Qed.

Lemma SetRequiredPathResolution_guard r (e : SandboxEvent es_event_type_t) :
  SetRequiredPathResolution r e =
    if is_valid_ e then
      if is_sealed_ e then Aborts requires_not_sealed
      else Returns (mkSandboxEvent (event_type_ e) (path_type_ e) (src_path_ e)
             (dst_path_ e) (src_fd_ e) (dst_fd_ e) (pid_ e) (child_pid_ e)
             r (mode_ e) (error_ e) true false)
    else Aborts requires_valid.
Proof.
  unfold SetRequiredPathResolution.
  destruct e as [? ? ? ? ? ? ? ? ? ? ? [] []]; reflexivity.
Qed.

Lemma SetResolvedPaths_guard src dst (e : SandboxEvent es_event_type_t) :
  SetResolvedPaths src dst e =
    if is_valid_ e then
      if is_sealed_ e then Aborts requires_not_sealed
      else Returns (mkSandboxEvent (event_type_ e) kAbsolutePaths src dst (-1) (-1)
             (pid_ e) (child_pid_ e) kDoNotResolve (mode_ e) (error_ e) true false)
    else Aborts requires_valid.
Proof.
  unfold SetResolvedPaths.
  destruct e as [? ? ? ? ? ? ? ? ? ? ? [] []]; reflexivity.
Qed.

(** On a valid event that has not been sealed [SetResolvedPaths] returns,
    and leaves the event resolved. *)
Lemma SetResolvedPaths_unsealed_resolved src dst (e : SandboxEvent es_event_type_t) :
  is_valid_ e = true ->
  is_sealed_ e = false ->
  resolved_by src dst e.
Proof.
  intros Hv Hs. unfold resolved_by.
  rewrite SetResolvedPaths_guard, Hv, Hs.
  eexists. split; [reflexivity|]. simpl.
  repeat split; reflexivity.
Qed.

(** C3, amended.  For every valid event, after a call to [SetResolvedPaths]
    the path kind is [kAbsolutePaths], the required resolution is
    [kDoNotResolve] and both descriptors are -1, and a second call with the
    same arguments returns the same event.  Resolution is switched off, not
    made impossible: [SetRequiredPathResolution r] on the event returns and
    the event then requires [r], with its kind, paths and descriptors
    kept. *)
Theorem SetResolvedPaths_postcondition src dst (e e' : SandboxEvent es_event_type_t) :
  is_valid_ e = true ->
  SetResolvedPaths src dst e = Returns e' ->
  path_type_ e' = kAbsolutePaths /\
  required_path_resolution_ e' = kDoNotResolve /\
  src_fd_ e' = -1 /\
  dst_fd_ e' = -1 /\
  SetResolvedPaths src dst e' = Returns e' /\
  (forall r, exists e'',
     SetRequiredPathResolution r e' = Returns e'' /\
     required_path_resolution_ e'' = r /\
     path_type_ e'' = kAbsolutePaths /\
     src_path_ e'' = src_path_ e' /\ dst_path_ e'' = dst_path_ e' /\
     src_fd_ e'' = -1 /\ dst_fd_ e'' = -1).
Proof.
  intros Hv. rewrite SetResolvedPaths_guard, Hv.
  destruct (is_sealed_ e) eqn:Hs; [discriminate|].
  intros [= <-]. simpl. repeat split.
  intros r. eexists. split; [reflexivity|]. repeat split.
Qed.

(** C8.  On a sealed event each of the three setters aborts: the condition
    of its not-sealed assertion is false, and that assertion is the one that
    fails whenever the validity assertion before it lets the call through.
    An aborted call returns no event, so no field is changed. *)
Theorem sealed_event_rejects_mutation mode r src dst (s : SandboxEvent es_event_type_t) :
  is_sealed_ s = true ->
  negb (is_sealed_ s) = false /\
  aborted (SetMode mode s) /\
  aborted (SetRequiredPathResolution r s) /\
  aborted (SetResolvedPaths src dst s) /\
  SetMode mode s =
    Aborts (if is_valid_ s then requires_not_sealed else requires_valid) /\
  SetRequiredPathResolution r s =
    Aborts (if is_valid_ s then requires_not_sealed else requires_valid) /\
  SetResolvedPaths src dst s =
    Aborts (if is_valid_ s then requires_not_sealed else requires_valid).
Proof.
  intros Hs. unfold aborted.
  rewrite SetMode_guard, SetRequiredPathResolution_guard, SetResolvedPaths_guard, Hs.
  destruct (is_valid_ s); simpl; repeat split; eauto.
Qed.

(** C9.  On an event that is not valid, and so on the invalid sentinel,
    every field accessor aborts on its validity assertion; [IsValid] asserts
    nothing and returns 0 there. *)
Theorem accessors_require_validity (e : SandboxEvent es_event_type_t) :
  is_valid_ e = false ->
  GetPid e = Aborts requires_valid /\
  GetChildPid e = Aborts requires_valid /\
  GetEventType e = Aborts requires_valid /\
  GetMode e = Aborts requires_valid /\
  GetSrcPath e = Aborts requires_valid /\
  GetDstPath e = Aborts requires_valid /\
  GetSrcFd e = Aborts requires_valid /\
  GetDstFd e = Aborts requires_valid /\
  GetError e = Aborts requires_valid /\
  GetPathType e = Aborts requires_valid /\
  GetRequiredPathResolution e = Aborts requires_valid /\
  IsDirectory e = Aborts requires_valid /\
  IsValid e = 0.
Proof.
  intros Hv.
  unfold GetPid, GetChildPid, GetEventType, GetMode, GetSrcPath, GetDstPath,
    GetSrcFd, GetDstFd, GetError, GetPathType, GetRequiredPathResolution,
    IsDirectory, IsValid.
  rewrite !(getter_invalid _ e Hv), Hv. repeat split; reflexivity.
Qed.

(** The accessors of a valid event return the fields. *)
Lemma accessors_of_valid (e : SandboxEvent es_event_type_t) :
  is_valid_ e = true ->
  GetPid e = Returns (pid_ e) /\
  GetChildPid e = Returns (child_pid_ e) /\
  GetEventType e = Returns (event_type_ e) /\
  GetMode e = Returns (mode_ e) /\
  GetSrcPath e = Returns (src_path_ e) /\
  GetDstPath e = Returns (dst_path_ e) /\
  GetSrcFd e = Returns (src_fd_ e) /\
  GetDstFd e = Returns (dst_fd_ e) /\
  GetError e = Returns (error_ e) /\
  GetPathType e = Returns (path_type_ e) /\
  GetRequiredPathResolution e = Returns (required_path_resolution_ e) /\
  IsDirectory e = Returns (S_ISDIR (mode_ e)) /\
  IsValid e = 1.
Proof.
  intros Hv.
  unfold GetPid, GetChildPid, GetEventType, GetMode, GetSrcPath, GetDstPath,
    GetSrcFd, GetDstFd, GetError, GetPathType, GetRequiredPathResolution,
    IsDirectory, IsValid.
  rewrite !(getter_valid _ e Hv), Hv. repeat split; reflexivity.
Qed.

(** C7.  A null source or destination pointer makes either path factory
    return the invalid sentinel, on which [IsValid] returns 0: the event is
    the default-constructed one, never a populated one. *)
Theorem null_path_yields_invalid ty pid err (src dst : const_char_ptr) fd_src fd_dst :
  src = nullptr \/ dst = nullptr ->
  AbsolutePathSandboxEvent ty pid err src dst = Invalid /\
  RelativePathSandboxEvent ty pid err src fd_src dst fd_dst = Invalid /\
  IsValid Invalid = 0 /\
  is_valid_ Invalid = false.
Proof.
  unfold nullptr. intros [-> | ->].
  - repeat split; reflexivity.
  - destruct src; repeat split; reflexivity.
Qed.

(** C4.  When the source denotes an empty or unrooted string, or the
    destination a non-empty unrooted one, the absolute-path factory returns
    what the relative-path factory returns for the same arguments, with
    [AT_FDCWD] as the handle of each path classified relative; the event is
    valid and its path kind is [kRelativePaths]. *)
Theorem unrooted_path_redirects_to_relative ty pid err (src dst : string) :
  relative_source (std_string src) = true \/
  relative_destination (std_string dst) = true ->
  let e := AbsolutePathSandboxEvent ty pid err (Some src) (Some dst) in
  (exists fd_src fd_dst,
     e = RelativePathSandboxEvent ty pid err (Some src) fd_src (Some dst) fd_dst /\
     (relative_source (std_string src) = true -> fd_src = AT_FDCWD) /\
     (relative_destination (std_string dst) = true -> fd_dst = AT_FDCWD)) /\
  is_valid_ e = true /\
  path_type_ e = kRelativePaths /\
  (relative_source (std_string src) = true -> src_fd_ e = AT_FDCWD) /\
  (relative_destination (std_string dst) = true -> dst_fd_ e = AT_FDCWD).
Proof.
  intros Hrel e. subst e. rewrite AbsolutePathSandboxEvent_unfold.
  assert (Hor : relative_source (std_string src)
                || relative_destination (std_string dst) = true).
  { apply orb_true_iff. exact Hrel. }
  rewrite Hor. split.
  - eexists _, _. split; [reflexivity|].
    split; intros ->; reflexivity.
  - rewrite RelativePathSandboxEvent_populated. simpl.
    repeat split; intros ->; reflexivity.
Qed.

(** C5.  A rooted source with an empty destination stays on the absolute
    path: the event is valid, of kind [kAbsolutePaths], with an empty
    destination path and no descriptors, and it is not an event the
    relative-path factory returns. *)
Theorem rooted_source_empty_destination_is_absolute ty pid err (src dst : string) :
  rooted (std_string src) = true ->
  std_string dst = EmptyString ->
  let e := AbsolutePathSandboxEvent ty pid err (Some src) (Some dst) in
  e = SandboxEvent_ctor ty (std_string src) EmptyString (-1) (-1) pid 0 err
        kAbsolutePaths /\
  is_valid_ e = true /\
  path_type_ e = kAbsolutePaths /\
  dst_path_ e = EmptyString /\
  (forall ty' pid' err' src' fd_src dst' fd_dst,
     e <> RelativePathSandboxEvent ty' pid' err' src' fd_src dst' fd_dst).
Proof.
  intros Hsrc Hdst e. subst e. rewrite AbsolutePathSandboxEvent_unfold.
  unfold relative_source, relative_destination.
  rewrite Hsrc, Hdst.
  destruct (std_string src) as [|c rest] eqn:Es; [discriminate Hsrc|].
  simpl. repeat split.
  intros ty' pid' err' src' fd_src dst' fd_dst Heq.
  destruct src', dst'; simpl in Heq; discriminate Heq.
Qed.

(** C10.  With one path classified relative and the other not, the event is
    valid, holds the two paths given, and is of kind [kRelativePaths]; the
    relative path carries [AT_FDCWD] and the other one carries -1, as the
    accessors return them. *)
Theorem mixed_paths_root_handles ty pid err (src dst : string) :
  xorb (relative_source (std_string src))
       (relative_destination (std_string dst)) = true ->
  let e := AbsolutePathSandboxEvent ty pid err (Some src) (Some dst) in
  is_valid_ e = true /\
  IsValid e = 1 /\
  GetPathType e = Returns kRelativePaths /\
  GetSrcPath e = Returns (std_string src) /\
  GetDstPath e = Returns (std_string dst) /\
  path_type_ e = kRelativePaths /\
  (relative_source (std_string src) = true ->
     GetSrcFd e = Returns AT_FDCWD /\ GetDstFd e = Returns (-1) /\
     src_fd_ e = AT_FDCWD /\ dst_fd_ e = -1) /\
  (relative_destination (std_string dst) = true ->
     GetSrcFd e = Returns (-1) /\ GetDstFd e = Returns AT_FDCWD /\
     src_fd_ e = -1 /\ dst_fd_ e = AT_FDCWD).
Proof.
  intros Hmixed e. subst e. rewrite AbsolutePathSandboxEvent_unfold.
  destruct (relative_source (std_string src)),
           (relative_destination (std_string dst));
    try discriminate Hmixed; simpl;
    repeat split; intros; (reflexivity || discriminate).
Qed.

End SandboxEventProperties.

(** *** The properties at concrete events *)

Example empty_source_is_relative :
  let e := AbsolutePathSandboxEvent fcntl_AT_FDCWD leftover_storage 1 4242 0
             (Some "") default_dst_path in
  path_type_ e = kRelativePaths /\ src_fd_ e = -100 /\ dst_fd_ e = -1.
Proof. repeat split; reflexivity. Qed.

Example unrooted_destination_is_relative :
  let e := AbsolutePathSandboxEvent fcntl_AT_FDCWD leftover_storage 6 4242 0
             (Some "/tmp/a") (Some "b") in
  path_type_ e = kRelativePaths /\ src_fd_ e = -1 /\ dst_fd_ e = -100.
Proof. repeat split; reflexivity. Qed.

Example fork_event_is_absolute :
  let e := ForkSandboxEvent 11 4242 4243 "/bin/sh" in
  GetPathType e = Returns kAbsolutePaths /\
  GetChildPid e = Returns 4243 /\
  GetRequiredPathResolution e = Returns kFullyResolve.
Proof. repeat split; reflexivity. Qed.

Example directory_mode :
  bind_checked (SetMode 16877 relative_event) IsDirectory = Returns true /\
  bind_checked (SetMode 33188 relative_event) IsDirectory = Returns false /\
  IsDirectory relative_event = Returns false.
Proof. repeat split; reflexivity. Qed.

Lemma SetResolvedPaths_postcondition_witness :
  path_type_ resolved_relative_event = kAbsolutePaths /\
  required_path_resolution_ resolved_relative_event = kDoNotResolve /\
  src_fd_ resolved_relative_event = -1 /\
  dst_fd_ resolved_relative_event = -1 /\
  SetResolvedPaths "/tmp/a" "" resolved_relative_event =
    Returns resolved_relative_event /\
  (forall r, exists e'',
     SetRequiredPathResolution r resolved_relative_event = Returns e'' /\
     required_path_resolution_ e'' = r /\
     path_type_ e'' = kAbsolutePaths /\
     src_path_ e'' = src_path_ resolved_relative_event /\
     dst_path_ e'' = dst_path_ resolved_relative_event /\
     src_fd_ e'' = -1 /\ dst_fd_ e'' = -1).
Proof.
  apply (SetResolvedPaths_postcondition "/tmp/a" "" relative_event
           resolved_relative_event); reflexivity.
Defined.

(** C3 as first stated fails in its last clause.  The valid event
    [relative_event] is resolved by [SetResolvedPaths] and asks for no
    resolution; one call to [SetRequiredPathResolution] later it asks for
    full resolution again, so re-resolution was not made impossible. *)
Lemma resolved_event_resolution_not_final :
  is_valid_ relative_event = true /\
  SetResolvedPaths "/tmp/a" "" relative_event = Returns resolved_relative_event /\
  required_path_resolution_ resolved_relative_event = kDoNotResolve /\
  (exists e'',
     invoke_all [call_SetRequiredPathResolution kFullyResolve]
       resolved_relative_event = Returns e'' /\
     required_path_resolution_ e'' = kFullyResolve) /\
  ~ resolution_is_final resolved_relative_event.
Proof.
  split; [reflexivity|]. split; [reflexivity|]. split; [reflexivity|]. split.
  - eexists. split; reflexivity.
  - intros Hfinal.
    specialize (Hfinal [call_SetRequiredPathResolution kFullyResolve] _ eq_refl).
    discriminate Hfinal.
Qed.

(** A valid event that was sealed: the call aborts on the not-sealed
    assertion and returns no event. *)
Lemma SetResolvedPaths_sealed_not_resolved :
  is_valid_ sealed_relative_event = true /\
  SetResolvedPaths "/tmp/a" "" sealed_relative_event = Aborts requires_not_sealed /\
  ~ resolved_by "/tmp/a" "" sealed_relative_event.
Proof.
  split; [reflexivity|]. split; [reflexivity|].
  intros (e' & Hcall & _). discriminate Hcall.
Qed.

Lemma sealed_event_rejects_mutation_witness :
  is_sealed_ sealed_relative_event = true /\
  SetMode 16877 sealed_relative_event = Aborts requires_not_sealed /\
  SetRequiredPathResolution kDoNotResolve sealed_relative_event =
    Aborts requires_not_sealed /\
  SetResolvedPaths "/tmp/a" "" sealed_relative_event = Aborts requires_not_sealed.
Proof.
  split; [reflexivity|].
  apply (sealed_event_rejects_mutation 16877 kDoNotResolve "/tmp/a" ""
           sealed_relative_event).
  reflexivity.
Defined.

Lemma accessors_require_validity_witness :
  is_valid_ (Invalid leftover_storage) = false /\
  GetPid (Invalid leftover_storage) = Aborts requires_valid /\
  GetSrcPath (Invalid leftover_storage) = Aborts requires_valid /\
  IsValid (Invalid leftover_storage) = 0.
Proof.
  split; [reflexivity|].
  destruct (accessors_require_validity (Invalid leftover_storage) eq_refl)
    as (Hpid & _ & _ & _ & Hsrc & _ & _ & _ & _ & _ & _ & _ & Hvalid).
  exact (conj Hpid (conj Hsrc Hvalid)).
Defined.

Lemma null_path_yields_invalid_witness :
  AbsolutePathSandboxEvent fcntl_AT_FDCWD leftover_storage 10 4242 0
    nullptr default_dst_path = Invalid leftover_storage /\
  RelativePathSandboxEvent leftover_storage 10 4242 0
    nullptr 5 default_dst_path default_dst_fd = Invalid leftover_storage /\
  IsValid (Invalid leftover_storage) = 0 /\
  is_valid_ (Invalid leftover_storage) = false.
Proof.
  apply (null_path_yields_invalid fcntl_AT_FDCWD leftover_storage 10 4242 0
           nullptr default_dst_path 5 default_dst_fd).
  left. reflexivity.
Defined.

Lemma unrooted_path_redirects_to_relative_witness :
  let e := AbsolutePathSandboxEvent fcntl_AT_FDCWD leftover_storage 10 4242 0
             (Some "rel/file") default_dst_path in
  is_valid_ e = true /\ path_type_ e = kRelativePaths /\ src_fd_ e = -100.
Proof.
  destruct (unrooted_path_redirects_to_relative fcntl_AT_FDCWD leftover_storage
              10 4242 0 "rel/file" "" (or_introl eq_refl))
    as (_ & Hvalid & Hkind & Hsrc & _).
  exact (conj Hvalid (conj Hkind (Hsrc eq_refl))).
Defined.

Lemma rooted_source_empty_destination_is_absolute_witness :
  let e := AbsolutePathSandboxEvent fcntl_AT_FDCWD leftover_storage 1 4242 0
             (Some "/tmp/a") default_dst_path in
  is_valid_ e = true /\ path_type_ e = kAbsolutePaths /\ dst_path_ e = "".
Proof.
  destruct (rooted_source_empty_destination_is_absolute fcntl_AT_FDCWD
              leftover_storage 1 4242 0 "/tmp/a" "" eq_refl eq_refl)
    as (_ & Hvalid & Hkind & Hdst & _).
  exact (conj Hvalid (conj Hkind Hdst)).
Defined.

Lemma mixed_paths_root_handles_witness :
  let e := AbsolutePathSandboxEvent fcntl_AT_FDCWD leftover_storage 6 4242 0
             (Some "rel/file") (Some "/abs/file") in
  is_valid_ e = true /\
  GetPathType e = Returns kRelativePaths /\
  GetSrcFd e = Returns (-100) /\ GetDstFd e = Returns (-1).
Proof.
  destruct (mixed_paths_root_handles fcntl_AT_FDCWD leftover_storage
              6 4242 0 "rel/file" "/abs/file" eq_refl)
    as (Hvalid & _ & Hkind & _ & _ & _ & Hsrc & _).
  destruct (Hsrc eq_refl) as (Hsrc_fd & Hdst_fd & _).
  exact (conj Hvalid (conj Hkind (conj Hsrc_fd Hdst_fd))).
Defined.

(** ** The data-partition prefix *)

Lemma prefix_nil (s : string) : String.prefix EmptyString s = true.
Proof. destruct s; reflexivity. Qed.

Lemma prefix_cons_inv a pre (s : string) :
  String.prefix (String a pre) s = true ->
  exists rest, s = String a rest /\ String.prefix pre rest = true.
Proof.
  destruct s as [|b rest]; simpl; [discriminate|].
  destruct (ascii_dec a b) as [->|]; [|discriminate].
  intros Hp. exists rest. split; [reflexivity | exact Hp].
Qed.

Lemma prefix_append_l (a b s : string) :
  String.prefix (a +:+ b) s = true -> String.prefix a s = true.
Proof.
  revert s. induction a as [|c a IH]; intros s Hp.
  - apply prefix_nil.
  - simpl in Hp. apply prefix_cons_inv in Hp as (rest & -> & Hp).
    simpl. destruct (ascii_dec c c) as [_|Hne]; [|contradiction].
    apply IH. exact Hp.
Qed.

Lemma prefix_append_same (a s : string) : String.prefix a (a +:+ s) = true.
Proof.
  induction a as [|c a IH]; simpl.
  - apply prefix_nil.
  - destruct (ascii_dec c c) as [_|Hne]; [exact IH | contradiction].
Qed.

Lemma advance_append (a s : string) : advance (String.length a) (a +:+ s) = s.
Proof. induction a as [|c a IH]; simpl; [reflexivity | exact IH]. Qed.

Lemma rooted_inv (p : string) : rooted p = true -> exists rest, p = String "/" rest.
Proof.
  destruct p as [|c rest]; simpl; [discriminate|].
  intros Hc. apply Ascii.eqb_eq in Hc. subst c. exists rest. reflexivity.
Qed.

(** A path that does not start with the prefix is returned as it is. *)
Lemma IgnoreDataPartitionPrefix_other (p : string) :
  String.prefix kDataPartitionPrefix p = false ->
  IgnoreDataPartitionPrefix p = p.
Proof. intros Hp. unfold IgnoreDataPartitionPrefix. rewrite Hp. reflexivity. Qed.

(** An absolute path under the data partition loses the prefix and keeps
    its leading separator. *)
Lemma IgnoreDataPartitionPrefix_strip (p : string) :
  rooted p = true ->
  IgnoreDataPartitionPrefix ("/System/Volumes/Data" +:+ p) = p.
Proof.
  intros Hr. apply rooted_inv in Hr as [rest ->].
  unfold IgnoreDataPartitionPrefix.
  change ("/System/Volumes/Data" +:+ String "/" rest)
    with (kDataPartitionPrefix +:+ rest).
  rewrite prefix_append_same.
  change (kDataPartitionPrefix +:+ rest)
    with ("/System/Volumes/Data" +:+ String "/" rest).
  apply (advance_append "/System/Volumes/Data").
Qed.

Section PipelineProperties.

Context {FileOperation : Type} `{Countable FileOperation}.
Context {PolicyResult AccessCheckResult es_message_t : Type}.
Variable message_pid : es_message_t -> Z.
Variable PolicyForPath : string -> PolicyResult.
Variable ReportFileOpAccess :
  FileOperation -> PolicyResult -> AccessCheckResult -> Z -> ReportResult.

Local Abbreviation Pip := (Pip FileOperation PolicyResult AccessCheckResult).
Local Abbreviation Call :=
  (Call FileOperation PolicyResult AccessCheckResult es_message_t).
Local Abbreviation CheckAndReportInternal :=
  (CheckAndReportInternal message_pid PolicyForPath ReportFileOpAccess).
Local Abbreviation perform :=
  (perform message_pid PolicyForPath ReportFileOpAccess).
Local Abbreviation perform_all :=
  (perform_all message_pid PolicyForPath ReportFileOpAccess).

(** C6.  An absolute path that does not start with the overlay-mount prefix
    and the same path behind that prefix are canonicalized to one string;
    they get one cache key and one policy, and the pipeline treats a call
    on the one as it treats the call on the other. *)
Theorem data_partition_prefix_ignored (p : string) :
  rooted p = true ->
  String.prefix "/System/Volumes/Data" p = false ->
  let q := "/System/Volumes/Data" +:+ p in
  IgnoreDataPartitionPrefix q = IgnoreDataPartitionPrefix p /\
  (forall operation : FileOperation, cache_key operation q = cache_key operation p) /\
  PolicyForPath (IgnoreDataPartitionPrefix q) =
    PolicyForPath (IgnoreDataPartitionPrefix p) /\
  (forall operation checker msg isDir (pip : Pip),
     CheckAndReportInternal operation q checker msg isDir pip =
     CheckAndReportInternal operation p checker msg isDir pip).
Proof.
  intros Hr Hno q. subst q.
  assert (Hsame : IgnoreDataPartitionPrefix ("/System/Volumes/Data" +:+ p) =
                  IgnoreDataPartitionPrefix p).
  { rewrite IgnoreDataPartitionPrefix_strip by exact Hr.
    symmetry. apply IgnoreDataPartitionPrefix_other.
    destruct (String.prefix kDataPartitionPrefix p) eqn:E; [|reflexivity].
    change kDataPartitionPrefix with ("/System/Volumes/Data" +:+ "/") in E.
    apply prefix_append_l in E. congruence. }
  repeat split.
  - exact Hsame.
  - intros operation. unfold cache_key. rewrite Hsame. reflexivity.
  - rewrite Hsame. reflexivity.
  - intros. unfold AccessHandler.CheckAndReportInternal. rewrite Hsame. reflexivity.
Qed.

(** *** De-duplication *)

Lemma perform_hit (c : Call) (pip : Pip) entry :
  cache pip !! call_key c = Some entry ->
  perform c pip = (cached_decision entry, pip).
Proof.
  intros Hhit.
  unfold AccessHandler.perform, CheckAndReport_isDir,
    AccessHandler.CheckAndReportInternal.
  unfold call_key, cache_key in Hhit. rewrite Hhit. reflexivity.
Qed.

Lemma perform_miss (c : Call) (pip : Pip) :
  cache pip !! call_key c = None ->
  let canonical := IgnoreDataPartitionPrefix (call_path c) in
  let policy := PolicyForPath canonical in
  let decision := call_checker c (call_operation c) policy (call_isDir c) in
  let pid := message_pid (call_msg c) in
  let outcome := ReportFileOpAccess (call_operation c) policy decision pid in
  perform c pip =
    (decision,
     mkPip (<[call_key c := mkCacheEntry decision outcome]> (cache pip))
       (effects pip ++
          [PolicyLookup canonical;
           Report (call_operation c) policy decision pid outcome])).
Proof.
  intros Hmiss. cbv zeta.
  unfold AccessHandler.perform, CheckAndReport_isDir,
    AccessHandler.CheckAndReportInternal.
  unfold call_key, cache_key in Hmiss. rewrite Hmiss. reflexivity.
Qed.

(** An entry of the cache is never replaced or removed. *)
Lemma perform_keeps_entries (c : Call) (pip : Pip) k entry :
  cache pip !! k = Some entry ->
  cache (perform c pip).2 !! k = Some entry.
Proof.
  intros Hk.
  destruct (cache pip !! call_key c) as [hit|] eqn:Hc.
  - rewrite (perform_hit _ _ _ Hc). exact Hk.
  - rewrite (perform_miss _ _ Hc). simpl.
    rewrite lookup_insert_ne; [exact Hk|]. intros Heq. rewrite Heq in Hc. congruence.
Qed.

Lemma perform_all_keeps_entries (cs : list Call) (pip : Pip) k entry :
  cache pip !! k = Some entry ->
  cache (perform_all cs pip).2 !! k = Some entry.
Proof.
  revert pip. induction cs as [|c cs IH]; intros pip Hk; simpl; [exact Hk|].
  destruct (perform c pip) as [d pip1] eqn:E1.
  destruct (perform_all cs pip1) as [ds pip2] eqn:E2. simpl.
  change pip2 with (ds, pip2).2. rewrite <- E2. apply IH.
  change pip1 with (d, pip1).2. rewrite <- E1.
  apply perform_keeps_entries. exact Hk.
Qed.

(** After a call, its key is in the cache with the decision it returned. *)
Lemma perform_records (c : Call) (pip : Pip) :
  exists entry,
    cache (perform c pip).2 !! call_key c = Some entry /\
    cached_decision entry = (perform c pip).1.
Proof.
  destruct (cache pip !! call_key c) as [hit|] eqn:Hc.
  - rewrite (perform_hit _ _ _ Hc). exists hit. split; [exact Hc | reflexivity].
  - rewrite (perform_miss _ _ Hc). simpl. eexists. split.
    + apply lookup_insert_eq.
    + reflexivity.
Qed.

(** A call whose key was used before, with any calls in between, returns
    the decision of that earlier call and leaves the pip as it was. *)
Lemma later_call_is_cached (first later : Call) (between : list Call) (pip : Pip) :
  call_key later = call_key first ->
  let pip1 := (perform first pip).2 in
  let pip2 := (perform_all between pip1).2 in
  perform later pip2 = ((perform first pip).1, pip2).
Proof.
  intros Hkey pip1 pip2.
  destruct (perform_records first pip) as (entry & Hin & Hdec).
  assert (Hin2 : cache pip2 !! call_key later = Some entry).
  { rewrite Hkey. apply perform_all_keeps_entries. exact Hin. }
  rewrite (perform_hit _ _ _ Hin2), Hdec. reflexivity.
Qed.

Lemma same_key_calls_are_cached (cs : list Call) (pip : Pip) k entry :
  cache pip !! k = Some entry ->
  Forall (fun c => call_key c = k) cs ->
  perform_all cs pip = (map (fun _ => cached_decision entry) cs, pip).
Proof.
  intros Hk Hall. induction Hall as [|c cs Hc _ IH]; simpl; [reflexivity|].
  rewrite <- Hc in Hk. rewrite (perform_hit _ _ _ Hk), IH. reflexivity.
Qed.

(** C1.  The first call with a key looks the policy up once and invokes the
    reporting operation once; every later call with that key, whatever was
    called in between, returns the decision of the first and adds neither a
    lookup nor a report, so a run of calls with one key leaves the effects
    of its first call only. *)
Theorem repeated_access_checked_once (first : Call) (cs : list Call) (pip : Pip) :
  cache pip !! call_key first = None ->
  Forall (fun c => call_key c = call_key first) cs ->
  let canonical := IgnoreDataPartitionPrefix (call_path first) in
  let policy := PolicyForPath canonical in
  let decision :=
    call_checker first (call_operation first) policy (call_isDir first) in
  let pid := message_pid (call_msg first) in
  let outcome := ReportFileOpAccess (call_operation first) policy decision pid in
  exists pip1 : Pip,
    perform first pip = (decision, pip1) /\
    effects pip1 =
      effects pip ++
        [PolicyLookup canonical;
         Report (call_operation first) policy decision pid outcome] /\
    perform_all cs pip1 = (map (fun _ => decision) cs, pip1) /\
    (forall (between : list Call) (later : Call),
       call_key later = call_key first ->
       let pip2 := (perform_all between pip1).2 in
       perform later pip2 = (decision, pip2)).
Proof.
  intros Hmiss Hall canonical policy decision pid outcome.
  pose proof (perform_miss first pip Hmiss) as Hfirst. cbv zeta in Hfirst.
  fold canonical policy decision pid outcome in Hfirst.
  eexists. split; [exact Hfirst|].
  split; [reflexivity|]. split.
  - apply (same_key_calls_are_cached cs _ (call_key first)
             (mkCacheEntry decision outcome)); [|exact Hall].
    simpl. apply lookup_insert_eq.
  - intros between later Hkey.
    pose proof (later_call_is_cached first later between pip Hkey) as Hlater.
    cbv zeta in Hlater. rewrite Hfirst in Hlater.
    exact Hlater.
Qed.

End PipelineProperties.

(** *** The properties at concrete calls *)

Example data_partition_path :
  IgnoreDataPartitionPrefix "/System/Volumes/Data/tmp/a" = "/tmp/a".
Proof. reflexivity. Qed.

Example data_partition_mount_point :
  IgnoreDataPartitionPrefix "/System/Volumes/Data" = "/System/Volumes/Data".
Proof. reflexivity. Qed.

Example data_partition_lookalike :
  IgnoreDataPartitionPrefix "/System/Volumes/DataBase/x" = "/System/Volumes/DataBase/x".
Proof. reflexivity. Qed.

(** Only one prefix is stripped, so the path behind the prefix must not
    start with it again for the two to meet. *)
Example data_partition_twice :
  IgnoreDataPartitionPrefix "/System/Volumes/Data/System/Volumes/Data/x" =
    "/System/Volumes/Data/x" /\
  IgnoreDataPartitionPrefix "/System/Volumes/Data/x" = "/x".
Proof. split; reflexivity. Qed.

Lemma data_partition_prefix_ignored_witness :
  IgnoreDataPartitionPrefix "/System/Volumes/Data/tmp/a" =
    IgnoreDataPartitionPrefix "/tmp/a" /\
  cache_key 1%nat "/System/Volumes/Data/tmp/a" = cache_key 1%nat "/tmp/a".
Proof.
  destruct (data_partition_prefix_ignored (FileOperation := nat)
              (fun pid : Z => pid) tmp_policy skip_allowed "/tmp/a"
              eq_refl eq_refl)
    as (Hsame & Hkey & _).
  exact (conj Hsame (Hkey 1%nat)).
Defined.

Lemma repeated_access_checked_once_witness :
  exists pip1 : Pip nat bool bool,
    perform (fun pid : Z => pid) tmp_policy skip_allowed open_tmp_a new_pip =
      (true, pip1) /\
    effects pip1 = [PolicyLookup "/tmp/a"; Report 1%nat true true 4242 kSkipped] /\
    perform_all (fun pid : Z => pid) tmp_policy skip_allowed
      [open_tmp_a_on_data_partition; open_tmp_a] pip1 = ([true; true], pip1).
Proof.
  assert (Hkeys : Forall (fun c => call_key c = call_key open_tmp_a)
                    [open_tmp_a_on_data_partition; open_tmp_a]).
  { repeat constructor. }
  destruct (repeated_access_checked_once (fun pid : Z => pid) tmp_policy
              skip_allowed open_tmp_a [open_tmp_a_on_data_partition; open_tmp_a]
              new_pip eq_refl Hkeys)
    as (pip1 & Hfirst & Heffects & Hrest & _).
  exists pip1. exact (conj Hfirst (conj Heffects Hrest)).
Defined.

(** ** The life of an event: factories, member calls, sealing *)

Ltac unfold_getters :=
  unfold GetPid, GetChildPid, GetEventType, GetMode, GetSrcPath, GetDstPath,
    GetSrcFd, GetDstFd, GetError, GetPathType, GetRequiredPathResolution,
    IsDirectory, IsValid, getter in *.

Ltac by_flags e :=
  destruct e as [? ? ? ? ? ? ? ? ? ? ? [] []]; simpl in *;
  try discriminate; try reflexivity.

Section SandboxEventLifecycle.

Context {es_event_type_t : Type}.
Variable ES_EVENT_TYPE_NOTIFY_FORK : es_event_type_t.
Variable AT_FDCWD : Z.
Variable storage : SandboxEvent es_event_type_t.

Local Abbreviation Invalid := (Invalid storage).
Local Abbreviation ForkSandboxEvent := (ForkSandboxEvent ES_EVENT_TYPE_NOTIFY_FORK).
Local Abbreviation RelativePathSandboxEvent := (RelativePathSandboxEvent storage).
Local Abbreviation AbsolutePathSandboxEvent := (AbsolutePathSandboxEvent AT_FDCWD storage).
Local Abbreviation from_factory :=
  (from_factory ES_EVENT_TYPE_NOTIFY_FORK AT_FDCWD storage).
Local Abbreviation obtainable :=
  (obtainable ES_EVENT_TYPE_NOTIFY_FORK AT_FDCWD storage).

(** *** Factories *)

(** X1.  The fork and file-descriptor factories always return a valid
    event; each path factory returns a valid event exactly when neither
    pointer is null. *)
Theorem factory_validity ty pid child err path fd_src fd_dst (src dst : const_char_ptr) :
  is_valid_ (ForkSandboxEvent pid child path) = true /\
  is_valid_ (FileDescriptorSandboxEvent ty pid err fd_src fd_dst) = true /\
  (is_valid_ (AbsolutePathSandboxEvent ty pid err src dst) = true <->
     src <> nullptr /\ dst <> nullptr) /\
  (is_valid_ (RelativePathSandboxEvent ty pid err src fd_src dst fd_dst) = true <->
     src <> nullptr /\ dst <> nullptr).
Proof.
  unfold nullptr. split; [reflexivity|]. split; [reflexivity|].
  destruct src as [src|], dst as [dst|].
  - rewrite AbsolutePathSandboxEvent_unfold.
    destruct (relative_source (std_string src) || relative_destination (std_string dst));
      simpl; split; split; (reflexivity || (intros _; split; discriminate)).
  - simpl. split; split; try discriminate; intros [_ Hd]; contradiction.
  - simpl. split; split; try discriminate; intros [Hs _]; contradiction.
  - simpl. split; split; try discriminate; intros [Hs _]; contradiction.
Qed.


(** X3.  What goes into a path factory through non-null pointers is read
    back by the accessors: the two strings, the pid, the error and the
    event type, with child pid 0, whether the absolute-path factory keeps
    the event absolute or redirects it; the relative-path factory also gives
    back the two handles and never reclassifies, rooted paths included. *)
Theorem path_factories_read_back ty pid err (src dst : string) fd_src fd_dst :
  let a := AbsolutePathSandboxEvent ty pid err (Some src) (Some dst) in
  let r := RelativePathSandboxEvent ty pid err (Some src) fd_src (Some dst) fd_dst in
  (GetSrcPath a = Returns (std_string src) /\
   GetDstPath a = Returns (std_string dst) /\
   GetPid a = Returns pid /\
   GetError a = Returns err /\
   GetEventType a = Returns ty /\
   GetChildPid a = Returns 0) /\
  (GetSrcPath r = Returns (std_string src) /\
   GetDstPath r = Returns (std_string dst) /\
   GetPid r = Returns pid /\
   GetError r = Returns err /\
   GetEventType r = Returns ty /\
   GetChildPid r = Returns 0 /\
   GetSrcFd r = Returns fd_src /\
   GetDstFd r = Returns fd_dst /\
   GetPathType r = Returns kRelativePaths).
Proof.
  intros a r. subst a r. split.
  - rewrite AbsolutePathSandboxEvent_unfold.
    destruct (relative_source (std_string src) || relative_destination (std_string dst));
      repeat split; reflexivity.
  - repeat split; reflexivity.
Qed.

(** X4.  An event fresh from a factory is never sealed; when it is valid
    its mode is 0, so it is not a directory, and it asks for full
    resolution. *)
Theorem fresh_event_defaults (e : SandboxEvent es_event_type_t) :
  from_factory e ->
  is_sealed_ e = false /\
  (is_valid_ e = true ->
     GetMode e = Returns 0 /\
     IsDirectory e = Returns false /\
     GetRequiredPathResolution e = Returns kFullyResolve).
Proof.
  intros [pid child path | ty pid err src dst | ty pid err fs fd
         | ty pid err src fs dst fd].
  - split; [reflexivity|]. intros _. repeat split; reflexivity.
  - destruct src as [src|], dst as [dst|];
      try (split; [reflexivity | intros Hv; discriminate Hv]).
    rewrite AbsolutePathSandboxEvent_unfold.
    destruct (relative_source (std_string src) || relative_destination (std_string dst));
      (split; [reflexivity|]; intros _; repeat split; reflexivity).
  - split; [reflexivity|]. intros _. repeat split; reflexivity.
  - destruct src as [src|], dst as [dst|];
      try (split; [reflexivity | intros Hv; discriminate Hv]).
    split; [reflexivity|]. intros _. repeat split; reflexivity.
Qed.

(** *** Member calls *)

(** One call that returns leaves validity, event type, pid, child pid and
    error as they were, and does not unseal. *)
Lemma invoke_frame c (e e' : SandboxEvent es_event_type_t) :
  invoke c e = Returns e' ->
  is_valid_ e' = is_valid_ e /\
  event_type_ e' = event_type_ e /\
  pid_ e' = pid_ e /\
  child_pid_ e' = child_pid_ e /\
  error_ e' = error_ e /\
  (is_sealed_ e = true -> is_sealed_ e' = true).
Proof.
  destruct c as [|mode|r|src dst]; simpl.
  - intros [= <-]. repeat split.
  - rewrite SetMode_guard. destruct (is_valid_ e) eqn:Hv; [|discriminate].
    destruct (is_sealed_ e) eqn:Hs; [discriminate|].
    intros [= <-]. simpl. repeat split; auto.
  - rewrite SetRequiredPathResolution_guard.
    destruct (is_valid_ e) eqn:Hv; [|discriminate].
    destruct (is_sealed_ e) eqn:Hs; [discriminate|].
    intros [= <-]. simpl. repeat split; auto.
  - rewrite SetResolvedPaths_guard.
    destruct (is_valid_ e) eqn:Hv; [|discriminate].
    destruct (is_sealed_ e) eqn:Hs; [discriminate|].
    intros [= <-]. simpl. repeat split; auto.
Qed.

(** X5.  Whatever sequence of member calls returns, the event still has
    the validity, event type, pid, child pid and error it started with, and
    a sealed event is still sealed. *)
Theorem member_calls_keep_identity cs (e e' : SandboxEvent es_event_type_t) :
  invoke_all cs e = Returns e' ->
  is_valid_ e' = is_valid_ e /\
  event_type_ e' = event_type_ e /\
  pid_ e' = pid_ e /\
  child_pid_ e' = child_pid_ e /\
  error_ e' = error_ e /\
  (is_sealed_ e = true -> is_sealed_ e' = true).
Proof.
  revert e. induction cs as [|c cs IH]; intros e; simpl.
  - intros [= <-]. repeat split; auto.
  - destruct (invoke c e) as [e1|] eqn:E1; simpl; [|discriminate].
    intros Hrest. apply IH in Hrest.
    apply invoke_frame in E1.
    destruct Hrest as (-> & -> & -> & -> & -> & Hs'),
             E1 as (-> & -> & -> & -> & -> & Hs).
    repeat split; auto.
Qed.

Lemma Seal_sealed (e : SandboxEvent es_event_type_t) :
  is_sealed_ e = true -> Seal e = e.
Proof. intros Hs. destruct e; simpl in *. subst. reflexivity. Qed.

(** X6.  On a sealed event a sequence of member calls returns exactly when
    it holds nothing but [Seal], and then returns the event unchanged; a
    sequence with a setter aborts, on the not-sealed assertion when the
    event is valid and on the validity assertion when it is not. *)
Theorem sealed_event_is_immutable cs (e : SandboxEvent es_event_type_t) :
  is_sealed_ e = true ->
  invoke_all cs e =
    if forallb is_Seal cs then Returns e
    else Aborts (if is_valid_ e then requires_not_sealed else requires_valid).
Proof.
  intros Hs. induction cs as [|c cs IH]; simpl; [reflexivity|].
  destruct c as [|mode|r|src dst]; simpl.
  - rewrite (Seal_sealed e Hs). exact IH.
  - rewrite SetMode_guard, Hs. destruct (is_valid_ e); reflexivity.
  - rewrite SetRequiredPathResolution_guard, Hs. destruct (is_valid_ e); reflexivity.
  - rewrite SetResolvedPaths_guard, Hs. destruct (is_valid_ e); reflexivity.
Qed.

(** X7.  On an event that is not valid every setter aborts on the validity
    assertion, sealed or not; [Seal] alone goes through, so a sequence of
    member calls that returns has done nothing but seal. *)
Theorem invalid_event_only_seals cs (e : SandboxEvent es_event_type_t) :
  is_valid_ e = false ->
  invoke_all cs e =
    if forallb is_Seal cs
    then Returns (match cs with [] => e | _ :: _ => Seal e end)
    else Aborts requires_valid.
Proof.
  intros Hv. revert e Hv. induction cs as [|c cs IH]; intros e Hv; simpl;
    [reflexivity|].
  destruct c as [|mode|r|src dst]; simpl.
  - rewrite (IH (Seal e) Hv). destruct (forallb is_Seal cs); [|reflexivity].
    destruct cs; reflexivity.
  - rewrite SetMode_guard, Hv. reflexivity.
  - rewrite SetRequiredPathResolution_guard, Hv. reflexivity.
  - rewrite SetResolvedPaths_guard, Hv. reflexivity.
Qed.

(** Sealing twice is sealing once, and sealing changes nothing an accessor
    returns. *)
Lemma Seal_is_transparent (e : SandboxEvent es_event_type_t) :
  Seal (Seal e) = Seal e /\
  IsValid (Seal e) = IsValid e /\
  GetPid (Seal e) = GetPid e /\
  GetChildPid (Seal e) = GetChildPid e /\
  GetEventType (Seal e) = GetEventType e /\
  GetMode (Seal e) = GetMode e /\
  GetSrcPath (Seal e) = GetSrcPath e /\
  GetDstPath (Seal e) = GetDstPath e /\
  GetSrcFd (Seal e) = GetSrcFd e /\
  GetDstFd (Seal e) = GetDstFd e /\
  GetError (Seal e) = GetError e /\
  GetPathType (Seal e) = GetPathType e /\
  GetRequiredPathResolution (Seal e) = GetRequiredPathResolution e /\
  IsDirectory (Seal e) = IsDirectory e.
Proof. repeat split; reflexivity. Qed.

(** *** What holds of every event a client can hold *)

Lemma invoke_keeps_shape c (e e' : SandboxEvent es_event_type_t) :
  invoke c e = Returns e' ->
  (path_type_ e' = path_type_ e /\
   src_fd_ e' = src_fd_ e /\ dst_fd_ e' = dst_fd_ e /\
   src_path_ e' = src_path_ e /\ dst_path_ e' = dst_path_ e) \/
  (path_type_ e' = kAbsolutePaths /\ src_fd_ e' = -1 /\ dst_fd_ e' = -1).
Proof.
  destruct c as [|mode|r|src dst]; simpl.
  - intros [= <-]. left. repeat split.
  - rewrite SetMode_guard. destruct (is_valid_ e); [|discriminate].
    destruct (is_sealed_ e); [discriminate|].
    intros [= <-]. left. repeat split.
  - rewrite SetRequiredPathResolution_guard. destruct (is_valid_ e); [|discriminate].
    destruct (is_sealed_ e); [discriminate|].
    intros [= <-]. left. repeat split.
  - rewrite SetResolvedPaths_guard. destruct (is_valid_ e); [|discriminate].
    destruct (is_sealed_ e); [discriminate|].
    intros [= <-]. right. repeat split.
Qed.

(** X8.  In every valid event obtained from the factories and the member
    functions, kind [kAbsolutePaths] goes with both descriptors at -1, and
    kind [kFileDescriptors] goes with both path strings empty. *)
Theorem path_kind_matches_fields (e : SandboxEvent es_event_type_t) :
  obtainable e ->
  is_valid_ e = true ->
  (path_type_ e = kAbsolutePaths -> src_fd_ e = -1 /\ dst_fd_ e = -1) /\
  (path_type_ e = kFileDescriptors ->
     src_path_ e = EmptyString /\ dst_path_ e = EmptyString).
Proof.
  induction 1 as [e Hmade | c e e' _ IH Hcall].
  - destruct Hmade as [pid child path | ty pid err [src|] [dst|] | ty pid err fs fd
                      | ty pid err [src|] fs [dst|] fd];
      try (intros Hv; discriminate Hv).
    + intros _. split; [intros _; split; reflexivity | intros Hk; discriminate Hk].
    + rewrite AbsolutePathSandboxEvent_unfold.
      destruct (relative_source (std_string src)
                || relative_destination (std_string dst)); intros _.
      * split; intros Hk; discriminate Hk.
      * split; [intros _; split; reflexivity | intros Hk; discriminate Hk].
    + intros _. split; [intros Hk; discriminate Hk | intros _; split; reflexivity].
    + intros _. split; intros Hk; discriminate Hk.
  - intros Hv'.
    destruct (invoke_frame c e e' Hcall) as (Hv & _).
    rewrite Hv in Hv'. specialize (IH Hv'). destruct IH as [IHa IHf].
    destruct (invoke_keeps_shape c e e' Hcall)
      as [(-> & -> & -> & -> & ->) | (Hk & -> & ->)].
    + split; assumption.
    + split; [intros _; split; reflexivity|]. rewrite Hk. intros Hk'. discriminate Hk'.
Qed.

(** X9.  In every valid event obtained from the factories and the member
    functions, a child pid other than 0 means a fork event: the event type
    is the fork one, and the event was built with error 0. *)
Theorem child_pid_means_fork (e : SandboxEvent es_event_type_t) :
  obtainable e ->
  is_valid_ e = true ->
  child_pid_ e <> 0 ->
  event_type_ e = ES_EVENT_TYPE_NOTIFY_FORK /\ error_ e = 0.
Proof.
  induction 1 as [e Hmade | c e e' _ IH Hcall].
  - destruct Hmade as [pid child path | ty pid err [src|] [dst|] | ty pid err fs fd
                      | ty pid err [src|] fs [dst|] fd];
      try (intros Hv; discriminate Hv).
    + intros _ _. split; reflexivity.
    + rewrite AbsolutePathSandboxEvent_unfold.
      destruct (relative_source (std_string src)
                || relative_destination (std_string dst));
        intros _ Hc; exfalso; apply Hc; reflexivity.
    + intros _ Hc; exfalso; apply Hc; reflexivity.
    + intros _ Hc; exfalso; apply Hc; reflexivity.
  - destruct (invoke_frame c e e' Hcall) as (-> & -> & _ & -> & -> & _).
    exact IH.
Qed.

(** *** Setters *)

(** X10.  On a valid unsealed event [SetMode] and
    [SetRequiredPathResolution] return; the value set is the one read back
    ([IsDirectory] follows the new mode), and nothing else an accessor
    returns changes. *)
Theorem scalar_setters_change_one_field mode r (e : SandboxEvent es_event_type_t) :
  is_valid_ e = true ->
  is_sealed_ e = false ->
  (exists e',
     SetMode mode e = Returns e' /\
     GetMode e' = Returns mode /\
     IsDirectory e' = Returns (S_ISDIR mode) /\
     GetRequiredPathResolution e' = GetRequiredPathResolution e /\
     GetPid e' = GetPid e /\ GetChildPid e' = GetChildPid e /\
     GetEventType e' = GetEventType e /\ GetError e' = GetError e /\
     GetSrcPath e' = GetSrcPath e /\ GetDstPath e' = GetDstPath e /\
     GetSrcFd e' = GetSrcFd e /\ GetDstFd e' = GetDstFd e /\
     GetPathType e' = GetPathType e /\
     is_sealed_ e' = false) /\
  (exists e',
     SetRequiredPathResolution r e = Returns e' /\
     GetRequiredPathResolution e' = Returns r /\
     GetMode e' = GetMode e /\
     IsDirectory e' = IsDirectory e /\
     GetPid e' = GetPid e /\ GetChildPid e' = GetChildPid e /\
     GetEventType e' = GetEventType e /\ GetError e' = GetError e /\
     GetSrcPath e' = GetSrcPath e /\ GetDstPath e' = GetDstPath e /\
     GetSrcFd e' = GetSrcFd e /\ GetDstFd e' = GetDstFd e /\
     GetPathType e' = GetPathType e /\
     is_sealed_ e' = false).
Proof.
  intros Hv Hs. rewrite SetMode_guard, SetRequiredPathResolution_guard, Hv, Hs.
  split; eexists; (split; [reflexivity|]); unfold_getters; simpl; rewrite Hv;
    repeat split; reflexivity.
Qed.

(** X11.  On a valid unsealed event [SetResolvedPaths] replaces the two
    paths, which are then read back, and leaves pid, child pid, event type,
    error, mode and directory-ness as they were; it does not seal. *)
Theorem SetResolvedPaths_keeps_the_rest src dst (e : SandboxEvent es_event_type_t) :
  is_valid_ e = true ->
  is_sealed_ e = false ->
  exists e',
    SetResolvedPaths src dst e = Returns e' /\
    GetSrcPath e' = Returns src /\
    GetDstPath e' = Returns dst /\
    GetPid e' = GetPid e /\ GetChildPid e' = GetChildPid e /\
    GetEventType e' = GetEventType e /\ GetError e' = GetError e /\
    GetMode e' = GetMode e /\ IsDirectory e' = IsDirectory e /\
    is_sealed_ e' = false.
Proof.
  intros Hv Hs. rewrite SetResolvedPaths_guard, Hv, Hs.
  eexists; (split; [reflexivity|]); unfold_getters; simpl; rewrite Hv;
    repeat split; reflexivity.
Qed.

(** X12.  How setters compose, on any event, aborts included: the last
    [SetMode] wins; the last [SetResolvedPaths] wins, and it overrides an
    earlier [SetRequiredPathResolution]; [SetMode] commutes with the two
    other setters. *)
Theorem setters_compose m m' r src dst src' dst' (e : SandboxEvent es_event_type_t) :
  bind_checked (SetMode m e) (SetMode m') = SetMode m' e /\
  bind_checked (SetResolvedPaths src dst e) (SetResolvedPaths src' dst') =
    SetResolvedPaths src' dst' e /\
  bind_checked (SetRequiredPathResolution r e) (SetResolvedPaths src dst) =
    SetResolvedPaths src dst e /\
  bind_checked (SetMode m e) (SetRequiredPathResolution r) =
    bind_checked (SetRequiredPathResolution r e) (SetMode m) /\
  bind_checked (SetMode m e) (SetResolvedPaths src dst) =
    bind_checked (SetResolvedPaths src dst e) (SetMode m).
Proof.
  rewrite !SetMode_guard, !SetRequiredPathResolution_guard, !SetResolvedPaths_guard.
  destruct (is_valid_ e), (is_sealed_ e); repeat split; reflexivity.
Qed.

(** X13.  [kDoNotResolve] is not final: after [SetResolvedPaths], a call to
    [SetRequiredPathResolution] goes through on an unsealed event and the
    event asks for that resolution again, with its absolute kind, resolved
    paths and cleared descriptors kept. *)
Theorem resolution_can_be_requested_again src dst r (e : SandboxEvent es_event_type_t) :
  is_valid_ e = true ->
  is_sealed_ e = false ->
  exists e',
    bind_checked (SetResolvedPaths src dst e) (SetRequiredPathResolution r) =
      Returns e' /\
    GetRequiredPathResolution e' = Returns r /\
    GetPathType e' = Returns kAbsolutePaths /\
    GetSrcPath e' = Returns src /\ GetDstPath e' = Returns dst /\
    GetSrcFd e' = Returns (-1) /\ GetDstFd e' = Returns (-1).
Proof.
  intros Hv Hs. rewrite SetResolvedPaths_guard, Hv, Hs. simpl.
  eexists. split; [reflexivity|]. repeat split; reflexivity.
Qed.

Lemma rooted_std_string (buf : string) : rooted (std_string buf) = rooted buf.
Proof.
  rewrite <- at0_is_slash. destruct buf; reflexivity.
Qed.

(** X14.  The fork factory does not look at its path: for every path, an
    unrooted or empty one and one that holds a NUL too, the event is valid
    and of kind [kAbsolutePaths] and gives back the path and the child pid,
    where the absolute-path factory gives [kRelativePaths] for an unrooted
    path; on a rooted path free of NUL the two factories build the same
    event, child pid apart. *)
Theorem ForkSandboxEvent_does_not_classify pid child (path : string) :
  let f := ForkSandboxEvent pid child path in
  let a := AbsolutePathSandboxEvent ES_EVENT_TYPE_NOTIFY_FORK pid 0
             (Some path) default_dst_path in
  is_valid_ f = true /\
  GetPathType f = Returns kAbsolutePaths /\
  GetSrcPath f = Returns path /\
  GetChildPid f = Returns child /\
  (rooted path = false -> GetPathType a = Returns kRelativePaths) /\
  (std_string path = path -> rooted path = true ->
     ForkSandboxEvent pid 0 path = a).
Proof.
  intros f a. subst f a. unfold default_dst_path.
  rewrite AbsolutePathSandboxEvent_unfold.
  unfold relative_source, relative_destination.
  rewrite rooted_std_string. simpl.
  split; [reflexivity|]. split; [reflexivity|]. split; [reflexivity|].
  split; [reflexivity|]. split.
  - intros Hr. rewrite Hr, orb_true_r. reflexivity.
  - intros Hpath Hr. rewrite Hpath, Hr.
    destruct path; [discriminate Hr | reflexivity].
Qed.

End SandboxEventLifecycle.

(** *** The life of concrete events *)

Lemma fresh_event_defaults_witness :
  is_sealed_ relative_event = false /\
  GetMode relative_event = Returns 0 /\
  IsDirectory relative_event = Returns false /\
  GetRequiredPathResolution relative_event = Returns kFullyResolve.
Proof.
  destruct (fresh_event_defaults 11 fcntl_AT_FDCWD leftover_storage relative_event
              (from_RelativePath 11 fcntl_AT_FDCWD leftover_storage 10 4242 0
                 (Some "a") 5 default_dst_path default_dst_fd))
    as [Hs Hdefaults].
  exact (conj Hs (Hdefaults eq_refl)).
Defined.

Lemma member_calls_keep_identity_witness :
  is_valid_ reported_event = is_valid_ relative_event /\
  event_type_ reported_event = event_type_ relative_event /\
  pid_ reported_event = pid_ relative_event /\
  child_pid_ reported_event = child_pid_ relative_event /\
  error_ reported_event = error_ relative_event /\
  (is_sealed_ relative_event = true -> is_sealed_ reported_event = true).
Proof.
  apply (member_calls_keep_identity
           [call_SetMode 16877; call_SetResolvedPaths "/tmp/a" ""; call_Seal]).
  reflexivity.
Defined.

Lemma sealed_event_is_immutable_witness :
  invoke_all [call_Seal; call_Seal] reported_event = Returns reported_event /\
  invoke_all [call_Seal; call_SetMode 33188; call_Seal] reported_event =
    Aborts requires_not_sealed.
Proof.
  split.
  - apply (sealed_event_is_immutable [call_Seal; call_Seal] reported_event).
    reflexivity.
  - apply (sealed_event_is_immutable [call_Seal; call_SetMode 33188; call_Seal]
             reported_event).
    reflexivity.
Defined.

Lemma invalid_event_only_seals_witness :
  invoke_all [call_Seal; call_Seal] (Invalid leftover_storage) =
    Returns (Seal (Invalid leftover_storage)) /\
  invoke_all [call_Seal; call_SetResolvedPaths "/tmp/a" ""] (Invalid leftover_storage) =
    Aborts requires_valid.
Proof.
  split.
  - apply (invalid_event_only_seals [call_Seal; call_Seal] (Invalid leftover_storage)).
    reflexivity.
  - apply (invalid_event_only_seals [call_Seal; call_SetResolvedPaths "/tmp/a" ""]
             (Invalid leftover_storage)).
    reflexivity.
Defined.

Lemma reported_event_obtainable :
  obtainable 11 fcntl_AT_FDCWD leftover_storage reported_event.
Proof.
  apply (obtained_by_call _ _ _ call_Seal
           (mkSandboxEvent 10 kAbsolutePaths "/tmp/a" "" (-1) (-1) 4242 0
              kDoNotResolve 16877 0 true false)); [|reflexivity].
  apply (obtained_by_call _ _ _ (call_SetResolvedPaths "/tmp/a" "")
           (mkSandboxEvent 10 kRelativePaths "a" "" 5 (-1) 4242 0
              kFullyResolve 16877 0 true false)); [|reflexivity].
  apply (obtained_by_call _ _ _ (call_SetMode 16877) relative_event); [|reflexivity].
  apply obtained_from_factory.
  apply (from_RelativePath 11 fcntl_AT_FDCWD leftover_storage 10 4242 0
           (Some "a") 5 default_dst_path default_dst_fd).
Defined.

Lemma path_kind_matches_fields_witness :
  src_fd_ reported_event = -1 /\ dst_fd_ reported_event = -1.
Proof.
  destruct (path_kind_matches_fields 11 fcntl_AT_FDCWD leftover_storage
              reported_event reported_event_obtainable eq_refl)
    as [Habsolute _].
  exact (Habsolute eq_refl).
Defined.

Lemma child_pid_means_fork_witness :
  event_type_ fork_event = 11 /\ error_ fork_event = 0.
Proof.
  apply (child_pid_means_fork 11 fcntl_AT_FDCWD leftover_storage fork_event).
  - apply obtained_from_factory. apply from_Fork.
  - reflexivity.
  - discriminate.
Defined.

Lemma scalar_setters_change_one_field_witness :
  (exists e', SetMode 16877 relative_event = Returns e' /\
              GetMode e' = Returns 16877 /\ IsDirectory e' = Returns true) /\
  (exists e', SetRequiredPathResolution kResolveNoFollow relative_event = Returns e' /\
              GetRequiredPathResolution e' = Returns kResolveNoFollow).
Proof.
  destruct (scalar_setters_change_one_field 16877 kResolveNoFollow relative_event
              eq_refl eq_refl)
    as [(e1 & H1 & Hmode & Hdir & _) (e2 & H2 & Hres & _)].
  split; [exists e1 | exists e2]; auto.
Defined.

Lemma SetResolvedPaths_keeps_the_rest_witness :
  exists e', SetResolvedPaths "/tmp/a" "" relative_event = Returns e' /\
             GetSrcPath e' = Returns "/tmp/a" /\
             GetPid e' = GetPid relative_event.
Proof.
  destruct (SetResolvedPaths_keeps_the_rest "/tmp/a" "" relative_event eq_refl eq_refl)
    as (e' & Hcall & Hsrc & _ & Hpid & _).
  exists e'. auto.
Defined.

Lemma resolution_can_be_requested_again_witness :
  exists e',
    bind_checked (SetResolvedPaths "/tmp/a" "" relative_event)
      (SetRequiredPathResolution kFullyResolve) = Returns e' /\
    GetRequiredPathResolution e' = Returns kFullyResolve /\
    GetPathType e' = Returns kAbsolutePaths.
Proof.
  destruct (resolution_can_be_requested_again "/tmp/a" "" kFullyResolve
              relative_event eq_refl eq_refl)
    as (e' & Hcall & Hres & Hkind & _).
  exists e'. auto.
Defined.

Lemma ForkSandboxEvent_does_not_classify_witness :
  GetPathType (ForkSandboxEvent 11 4242 4243 "bin/sh") = Returns kAbsolutePaths /\
  GetPathType (AbsolutePathSandboxEvent fcntl_AT_FDCWD leftover_storage 11 4242 0
                 (Some "bin/sh") default_dst_path) = Returns kRelativePaths /\
  ForkSandboxEvent 11 4242 0 "/bin/sh" =
    AbsolutePathSandboxEvent fcntl_AT_FDCWD leftover_storage 11 4242 0
      (Some "/bin/sh") default_dst_path.
Proof.
  destruct (ForkSandboxEvent_does_not_classify 11 fcntl_AT_FDCWD leftover_storage
              4242 4243 "bin/sh")
    as (_ & Hfork & _ & _ & Habs & _).
  destruct (ForkSandboxEvent_does_not_classify 11 fcntl_AT_FDCWD leftover_storage
              4242 0 "/bin/sh")
    as (_ & _ & _ & _ & _ & Hsame).
  exact (conj Hfork (conj (Habs eq_refl) (Hsame eq_refl eq_refl))).
Defined.

(** ** The handler and its tracked process *)

Section HandlerProperties.

Context {ESSandbox SandboxedProcess SandboxedPip pipid_t FileAccessManifestFlag : Type}.
Variable SandboxedProcess_GetPip : SandboxedProcess -> option SandboxedPip.
Variable SandboxedPip_GetProcessId : SandboxedPip -> Z.
Variable SandboxedPip_GetPipId : SandboxedPip -> pipid_t.
Variable SandboxedPip_GetTreeSize : SandboxedPip -> Z.
Variable SandboxedPip_GetFamFlags : SandboxedPip -> FileAccessManifestFlag.

Local Abbreviation AccessHandler_t := (AccessHandler_t ESSandbox SandboxedProcess).
Local Abbreviation GetPip := (GetPip SandboxedProcess_GetPip).
Local Abbreviation GetProcessId :=
  (GetProcessId SandboxedProcess_GetPip SandboxedPip_GetProcessId).
Local Abbreviation GetPipId :=
  (GetPipId SandboxedProcess_GetPip SandboxedPip_GetPipId).
Local Abbreviation GetProcessTreeSize :=
  (GetProcessTreeSize SandboxedProcess_GetPip SandboxedPip_GetTreeSize).
Local Abbreviation GetFamFlags :=
  (GetFamFlags SandboxedProcess_GetPip SandboxedPip_GetFamFlags).

(** X15.  A handler has no tracked process right after construction and
    after destruction, whatever sandbox it was given, and then [GetPip] and
    the four pip accessors go through a null pointer; once [SetProcess]
    binds a process whose pip is present, they return what that pip holds
    and the sandbox pointer is the one given to the constructor. *)
Theorem handler_needs_tracked_process
    (sandbox : option ESSandbox) (h : AccessHandler_t)
    (process : SandboxedProcess) (pip : SandboxedPip) :
  let fresh := AccessHandler_ctor sandbox in
  let bound := SetProcess (Some process) fresh in
  (HasTrackedProcess fresh = false /\ GetSandbox fresh = sandbox) /\
  (HasTrackedProcess (AccessHandler_dtor h) = false /\
   GetSandbox (AccessHandler_dtor h) = None) /\
  (HasTrackedProcess h = false ->
     GetPip h = None /\ GetProcessId h = None /\ GetPipId h = None /\
     GetProcessTreeSize h = None /\ GetFamFlags h = None) /\
  (SandboxedProcess_GetPip process = Some pip ->
     HasTrackedProcess bound = true /\
     GetSandbox bound = sandbox /\
     GetPip bound = Some (Some pip) /\
     GetProcessId bound = Some (SandboxedPip_GetProcessId pip) /\
     GetPipId bound = Some (SandboxedPip_GetPipId pip) /\
     GetProcessTreeSize bound = Some (SandboxedPip_GetTreeSize pip) /\
     GetFamFlags bound = Some (SandboxedPip_GetFamFlags pip)).
Proof.
  intros fresh bound. subst fresh bound.
  split; [split; reflexivity|]. split; [split; reflexivity|]. split.
  - unfold HasTrackedProcess, AccessHandler.GetProcessId, AccessHandler.GetPipId,
      AccessHandler.GetProcessTreeSize, AccessHandler.GetFamFlags, through_pip,
      AccessHandler.GetPip.
    destruct (process_ h); [discriminate|]. intros _. repeat split.
  - intros Hpip.
    unfold AccessHandler.GetProcessId, AccessHandler.GetPipId,
      AccessHandler.GetProcessTreeSize, AccessHandler.GetFamFlags, through_pip,
      AccessHandler.GetPip. simpl. rewrite Hpip. repeat split.
Qed.

End HandlerProperties.

Lemma handler_needs_tracked_process_witness :
  let bound := SetProcess (Some 4242) (AccessHandler_ctor (Some tt)) in
  GetProcessId pip_of_process fst (AccessHandler_ctor (Some tt)) = None /\
  GetProcessId pip_of_process fst bound = Some 4242 /\
  GetProcessTreeSize pip_of_process snd bound = Some 3.
Proof.
  destruct (handler_needs_tracked_process (pipid_t := Z) pip_of_process
              fst fst snd snd (Some tt) (AccessHandler_ctor (Some tt))
              4242 (4242, 3))
    as (_ & _ & Hfresh & Hbound).
  destruct (Hfresh eq_refl) as (_ & Hid0 & _).
  destruct (Hbound eq_refl) as (_ & _ & _ & Hid & _ & Hsize & _).
  exact (conj Hid0 (conj Hid Hsize)).
Defined.

(** ** Pointers are read as C strings *)

Lemma std_string_idempotent (buf : string) :
  std_string (std_string buf) = std_string buf.
Proof.
  induction buf as [|c rest IH]; simpl; [reflexivity|].
  destruct (Ascii.eqb c NUL) eqn:E; simpl; [reflexivity|].
  rewrite E, IH. reflexivity.
Qed.

Section CStringArguments.

Context {es_event_type_t : Type}.
Variable AT_FDCWD : Z.
Variable storage : SandboxEvent es_event_type_t.

Local Abbreviation RelativePathSandboxEvent := (RelativePathSandboxEvent storage).
Local Abbreviation AbsolutePathSandboxEvent := (AbsolutePathSandboxEvent AT_FDCWD storage).

(** X16.  The path factories read each buffer as a C string: the bytes
    from the first NUL on change nothing, neither the stored paths nor the
    classification, so a buffer and the string it denotes give the same
    event. *)
Theorem path_factories_stop_at_NUL ty pid err (src dst : string) fd_src fd_dst :
  AbsolutePathSandboxEvent ty pid err (Some (std_string src)) (Some (std_string dst)) =
    AbsolutePathSandboxEvent ty pid err (Some src) (Some dst) /\
  RelativePathSandboxEvent ty pid err
      (Some (std_string src)) fd_src (Some (std_string dst)) fd_dst =
    RelativePathSandboxEvent ty pid err (Some src) fd_src (Some dst) fd_dst /\
  (forall tail_src tail_dst : string,
     AbsolutePathSandboxEvent ty pid err
         (Some (src +:+ String NUL tail_src)) (Some (dst +:+ String NUL tail_dst)) =
       AbsolutePathSandboxEvent ty pid err (Some src) (Some dst)).
Proof.
  assert (Hcut : forall a t : string, std_string (a +:+ String NUL t) = std_string a).
  { intros a t. induction a as [|c a IH]; simpl; [reflexivity|].
    destruct (Ascii.eqb c NUL); [reflexivity|]. rewrite IH. reflexivity. }
  split; [|split].
  - rewrite !AbsolutePathSandboxEvent_unfold, !RelativePathSandboxEvent_populated,
      !std_string_idempotent. reflexivity.
  - rewrite !RelativePathSandboxEvent_populated, !std_string_idempotent. reflexivity.
  - intros tail_src tail_dst.
    rewrite !AbsolutePathSandboxEvent_unfold, !RelativePathSandboxEvent_populated,
      !Hcut. reflexivity.
Qed.

End CStringArguments.
